(** * brian2.core.base: instance tracking and the BrianObject base class

    A shallow embedding of [brian2/core/base.py].  The Python heap is a finite
    map from object identities to objects (a class and an instance
    dictionary); the class attribute [InstanceFollower.__instancesets__], the
    one registry shared by every tracked class, is a finite map from classes
    to sets of weak references.  Methods that mutate either of them are
    written in a state-and-exception monad in which the state survives a
    raised exception, as it does in Python. *)

From stdpp Require Import gmap strings list fin_maps fin_sets relations.

Open Scope string_scope.

(** ** Values, classes and objects *)

(** Object identity (what [id(obj)] is in CPython). *)
Abbreviation oid := nat (only parsing).

(** A class is named by its [__name__]; the keys of [__instancesets__] are
    classes. *)
Abbreviation cname := string (only parsing).

(** Modelled from the spec: the module [brian2.core.clocks] is absent from the
    sources.  The spec asks of the time-base type only an identity suitable
    for type checks and a process-wide default instance obtainable without
    arguments; a clock is therefore just a named value, and [defaultclock]
    one of them. *)
Record Clock := { clock_name : string }.

Definition defaultclock : Clock := {| clock_name := "defaultclock" |}.

(** The Python values that occur as arguments and attributes here. [VRef] is
    a (strong) reference to a heap object, [VList] a list of such references,
    as [contained_objects] is. *)
Inductive pyval :=
  | VNone
  | VBool (b : bool)
  | VInt (n : Z)
  | VStr (s : string)
  | VClock (c : Clock)
  | VRef (o : oid)
  | VList (l : list oid).

(** A class object: its name, its method resolution order (the class itself
    first, [object] last) and the value an instance sees when it reads
    [_track_instances], that is the value found at the first class along the
    MRO that defines it ([InstanceTracker] defines it as [True]). *)
Record pyclass := {
  __name__ : cname;
  __mro__ : list cname;
  _track_instances : bool
}.

(** An instance: its class and its [__dict__]. *)
Record pyobject := {
  __class__ : pyclass;
  __dict__ : gmap string pyval
}.

(** The exceptions raised by the code.  [NoSuchObject] is not a Python
    exception: it marks the use of an identity that names no heap object,
    which Python code, holding references to live objects only, never does. *)
Inductive exn := TypeError | KeyError | AttributeError | RuntimeError | NoSuchObject.

Inductive result (A : Type) :=
  | Ok (a : A)
  | Raise (e : exn).
Arguments Ok {A} a.
Arguments Raise {A} e.

(** The mutable state: the heap of live objects and [__instancesets__]. An
    identity outside the heap is that of a collected object, and a weak
    reference to it answers [None]. *)
Record state := {
  heap : gmap oid pyobject;
  __instancesets__ : gmap cname (gset oid)
}.

Definition set_heap (f : gmap oid pyobject → gmap oid pyobject) (st : state) : state :=
  {| heap := f (heap st); __instancesets__ := __instancesets__ st |}.

Definition set_instancesets (f : gmap cname (gset oid) → gmap cname (gset oid))
    (st : state) : state :=
  {| heap := heap st; __instancesets__ := f (__instancesets__ st) |}.

(** ** The monad *)

Definition M (A : Type) : Type := state → result A * state.

Definition ret {A} (a : A) : M A := λ st, (Ok a, st).

Definition raise {A} (e : exn) : M A := λ st, (Raise e, st).

Definition bind {A B} (m : M A) (k : A → M B) : M B :=
  λ st, match m st with
        | (Ok a, st') => k a st'
        | (Raise e, st') => (Raise e, st')
        end.

Declare Scope py_scope.
Delimit Scope py_scope with py.
Notation "x <- m ;; k" := (bind m (λ x, k))
  (at level 100, m at next level, right associativity) : py_scope.
Notation "m ;; k" := (bind m (λ _, k))
  (at level 100, right associativity) : py_scope.
Open Scope py_scope.

Definition gets {A} (f : state → A) : M A := λ st, (Ok (f st), st).

Definition modify (f : state → state) : M unit := λ st, (Ok tt, f st).

(** [for x in l: body(x)] *)
Fixpoint for_each {A} (l : list A) (body : A → M unit) : M unit :=
  match l with
  | [] => ret tt
  | x :: l' => body x ;; for_each l' body
  end.

(** [obj.__class__] and [obj.__dict__] of a heap object. *)
Definition class_of (o : oid) : M pyclass :=
  λ st, match heap st !! o with
        | Some ob => (Ok (__class__ ob), st)
        | None => (Raise NoSuchObject, st)
        end.

Definition dict_of (o : oid) : M (gmap string pyval) :=
  λ st, match heap st !! o with
        | Some ob => (Ok (__dict__ ob), st)
        | None => (Raise NoSuchObject, st)
        end.

(** [object.__setattr__(o, k, v)]: a store into the instance dictionary. *)
Definition store_attr (k : string) (v : pyval) (ob : pyobject) : pyobject :=
  {| __class__ := __class__ ob; __dict__ := <[k := v]> (__dict__ ob) |}.

Definition setattr (o : oid) (k : string) (v : pyval) : M unit :=
  λ st, match heap st !! o with
        | Some ob => (Ok tt, set_heap <[o := store_attr k v ob]> st)
        | None => (Raise NoSuchObject, st)
        end.

(** Reading an instance attribute that the class does not define. *)
Definition getattr (o : oid) (k : string) : M pyval :=
  d <- dict_of o ;;
  match d !! k with
  | Some v => ret v
  | None => raise AttributeError
  end.

(** ** class WeakSet(set) *)

Module WeakSet.

(** A weak reference compares and hashes as its referent does, whatever its
    callback is, so that a set of weak references to objects compared by
    identity is a set of identities. *)
Abbreviation t := (gset oid) (only parsing).

(** [wr = ref(value, self.remove); set.add(self, wr)] *)
Definition add (self : t) (value : oid) : t := {[ value ]} ∪ self.

(** [set.remove], inherited unchanged: [KeyError] when the element is not
    in the set. *)
Definition remove (self : t) (wr : oid) : result t :=
  if decide (wr ∈ self) then Ok (self ∖ {[ wr ]}) else Raise KeyError.

(** Calling a weak reference: the referent, or [None] once it is gone. *)
Definition call (h : gmap oid pyobject) (wr : oid) : pyval :=
  match h !! wr with
  | Some _ => VRef wr
  | None => VNone
  end.

(** [return [x() for x in self]] *)
Definition get (h : gmap oid pyobject) (self : t) : list pyval :=
  call h <$> elements self.

End WeakSet.

(** ** class InstanceFollower *)

Module InstanceFollower.

(** [if cls not in self.__instancesets__: self.__instancesets__[cls] = WeakSet()] *)
Definition ensure (cls : cname) : M unit :=
  sets <- gets __instancesets__ ;;
  match sets !! cls with
  | Some _ => ret tt
  | None => modify (set_instancesets <[cls := ∅]>)
  end.

(** [self.__instancesets__[cls].add(value)] *)
Definition add_to (cls : cname) (value : oid) : M unit :=
  sets <- gets __instancesets__ ;;
  match sets !! cls with
  | Some s => modify (set_instancesets <[cls := WeakSet.add s value]>)
  | None => raise KeyError
  end.

(** [self.__instancesets__[cls].remove(ref(value))] *)
Definition remove_from (cls : cname) (value : oid) : M unit :=
  sets <- gets __instancesets__ ;;
  match sets !! cls with
  | Some s =>
      match WeakSet.remove s value with
      | Ok s' => modify (set_instancesets <[cls := s']>)
      | Raise e => raise e
      end
  | None => raise KeyError
  end.

Definition add (value : oid) : M unit :=
  c <- class_of value ;;
  for_each (__mro__ c) (λ cls, ensure cls ;; add_to cls value).

Definition remove (value : oid) : M unit :=
  c <- class_of value ;;
  for_each (__mro__ c) (λ cls, ensure cls ;; remove_from cls value).

Definition get (cls : cname) : M (list pyval) :=
  sets <- gets __instancesets__ ;;
  match sets !! cls with
  | None => ret []
  | Some s => h <- gets heap ;; ret (WeakSet.get h s)
  end.

End InstanceFollower.

(** ** class InstanceTracker(object) *)

Module InstanceTracker.

Definition name : cname := "InstanceTracker".

(** The class attribute [__instancefollower__] is defined by
    [InstanceTracker] alone, so that looking it up on a class succeeds
    exactly when [InstanceTracker] is in the MRO of that class. *)
Definition has_instancefollower (c : pyclass) : bool :=
  bool_decide (name ∈ __mro__ c).

(** [object.__new__(cls)]: a new object with an empty [__dict__]. *)
Definition object_new (cls : pyclass) : M oid :=
  λ st, let o := fresh (dom (heap st)) in
        (Ok o, set_heap <[o := {| __class__ := cls; __dict__ := ∅ |}]> st).

Definition __new__ (cls : pyclass) : M oid :=
  obj <- object_new cls ;;
  (if _track_instances cls then InstanceFollower.add obj else ret tt) ;;
  ret obj.

Definition _stop_tracking (self : oid) : M unit := InstanceFollower.remove self.

Definition _start_tracking (self : oid) : M unit := InstanceFollower.add self.

End InstanceTracker.

(** ** get_instances *)

Definition get_instances (instancetype : pyclass) : M (list pyval) :=
  if InstanceTracker.has_instancefollower instancetype
  then InstanceFollower.get (__name__ instancetype)
  else raise TypeError.

(** ** class BrianObject(InstanceTracker) *)

Module BrianObject.

Definition name : cname := "BrianObject".

Definition cls : pyclass :=
  {| __name__ := name;
     __mro__ := [name; InstanceTracker.name; "object"];
     _track_instances := true |}.

(** A class derives from [BrianObject], and so inherits the [active]
    property, when [BrianObject] is in its MRO. *)
Definition derived (c : pyclass) : bool := bool_decide (name ∈ __mro__ c).

(** [isinstance(v, str)] *)
Definition isinstance_str (v : pyval) : bool :=
  match v with VStr _ => true | _ => false end.

(** [isinstance(v, clocks.Clock)] *)
Definition isinstance_Clock (v : pyval) : bool :=
  match v with VClock _ => true | _ => false end.

(** [bool(v)] *)
Definition bool (v : pyval) : Datatypes.bool :=
  match v with
  | VNone => false
  | VBool b => b
  | VInt n => negb (n =? 0)%Z
  | VStr s => negb (String.eqb s "")
  | VClock _ => true
  | VRef _ => true
  | VList l => negb (Nat.eqb (length l) 0)
  end.

(** The defaults of the keyword arguments of [__init__]. *)
Definition default_when : pyval := VStr "start".
Definition default_order : pyval := VInt 0.
Definition default_clock : pyval := VNone.

Definition __init__ (self : oid) (when order clock : pyval) : M unit :=
  if negb (isinstance_str when) then raise TypeError
  else
    let clock := match clock with VNone => VClock defaultclock | _ => clock end in
    if negb (isinstance_Clock clock) then raise TypeError
    else
      setattr self "when" when ;;
      setattr self "order" order ;;
      setattr self "_clock" clock ;;
      setattr self "_contained_objects" (VList []) ;;
      setattr self "_active" (VBool true).

(** [BrianObject(when, order, clock)] on a class [c] derived from
    [BrianObject]: [c.__new__] and then [__init__]. *)
Definition construct (c : pyclass) (when order clock : pyval) : M oid :=
  obj <- InstanceTracker.__new__ c ;;
  __init__ obj when order clock ;;
  ret obj.

(** The read-only properties. *)
Definition contained_objects (self : oid) : M pyval := getattr self "_contained_objects".
Definition clock (self : oid) : M pyval := getattr self "_clock".
Definition active (self : oid) : M pyval := getattr self "_active".

(** What a [for] loop iterates over: the elements of a list; [None] and
    the other values met here are not iterable. *)
Definition iter (v : pyval) : M (list oid) :=
  match v with
  | VList l => ret l
  | _ => raise TypeError
  end.

(** The setter of the property [active].  The recursion is that of the
    Python calls: [depth] is the number of nested activations of the setter
    that the interpreter still allows, and at zero it raises the
    recursion-limit [RuntimeError].  The assignment [obj.active = val] in
    the loop goes through the property when [obj] is a [BrianObject] and is
    a plain attribute store otherwise. *)
Fixpoint _set_active (depth : nat) (self : oid) (val : pyval) : M unit :=
  match depth with
  | O => raise RuntimeError
  | S depth' =>
      let val := VBool (bool val) in
      setattr self "_active" val ;;
      objs <- contained_objects self ;;
      objs <- iter objs ;;
      for_each objs (λ obj,
        c <- class_of obj ;;
        if derived c then _set_active depth' obj val
        else setattr obj "active" val)
  end.

(** [obj.active = val] *)
Definition assign_active (depth : nat) (obj : oid) (val : pyval) : M unit :=
  c <- class_of obj ;;
  if derived c then _set_active depth obj val
  else setattr obj "active" val.

End BrianObject.

(** ** clear *)






(** ** Destruction of an object *)

(** When an object is destroyed, every weak reference to it is cleared and
    the callback it was created with, [self.remove] of the set that holds it,
    is called on it: the reference leaves every set. *)
Definition finalize (o : oid) (st : state) : state :=
  {| heap := delete o (heap st);
     __instancesets__ := (λ s : gset oid, s ∖ {[ o ]}) <$> __instancesets__ st |}.

(** ** Vocabulary of the statements *)

(** The containment graph: [p] contains [c] when [c] is in the list that
    [p.contained_objects] returns. *)
Definition contains (h : gmap oid pyobject) (p c : oid) : Prop :=
  ∃ ob l, h !! p = Some ob ∧ __dict__ ob !! "_contained_objects" = Some (VList l) ∧ c ∈ l.

(** The objects reachable from [p] through [contained_objects], [p] itself
    among them. *)
Definition reach (h : gmap oid pyobject) : oid → oid → Prop := rtc (contains h).

(** What [obj.active] reads. *)
Definition active_of (h : gmap oid pyobject) (o : oid) : option pyval :=
  ob ← h !! o; __dict__ ob !! "_active".

(** A live instance of a class derived from [BrianObject]. *)
Definition is_BrianObject (h : gmap oid pyobject) (o : oid) : Prop :=
  ∃ ob, h !! o = Some ob ∧ BrianObject.derived (__class__ ob) = true.

(** A [BrianObject] on which [__init__] has run: it has its list of
    contained objects. *)
Definition initialised (h : gmap oid pyobject) (o : oid) : Prop :=
  ∃ ob l, h !! o = Some ob ∧ BrianObject.derived (__class__ ob) = true ∧
          __dict__ ob !! "_contained_objects" = Some (VList l).

(** No object reachable from [p] contains itself, directly or not. *)
Definition acyclic_from (h : gmap oid pyobject) (p : oid) : Prop :=
  ∀ x, reach h p x → ¬ tc (contains h) x x.

(** The cascade from [o] nests fewer than [d] activations of the setter:
    [o] is an initialised [BrianObject] and so is everything below it, to a
    depth less than [d]. *)
Fixpoint bounded (d : nat) (h : gmap oid pyobject) (o : oid) : Prop :=
  match d with
  | O => False
  | S d' =>
      ∃ ob l, h !! o = Some ob ∧ BrianObject.derived (__class__ ob) = true ∧
              __dict__ ob !! "_contained_objects" = Some (VList l) ∧
              Forall (bounded d' h) l
  end.

(** [h'] is [h] where some objects had [_active] set to [v] and nothing else
    was touched. *)
Definition flagged (v : pyval) (h h' : gmap oid pyobject) : Prop :=
  ∀ o, h' !! o = h !! o ∨
       ∃ ob, h !! o = Some ob ∧ h' !! o = Some (store_attr "_active" v ob).

(** The weak references held for class [T]. *)
Definition tracked (st : state) (T : cname) : gset oid :=
  default ∅ (__instancesets__ st !! T).

(** The registry is well formed when every weak reference in it resolves, is
    filed under classes of the MRO of its referent only, and under all of
    them; the MRO of a class lists no class twice. *)
Definition registry_wf (st : state) : Prop :=
  ∀ T s x, __instancesets__ st !! T = Some s → x ∈ s →
    ∃ ob, heap st !! x = Some ob ∧
          NoDup (__mro__ (__class__ ob)) ∧
          T ∈ __mro__ (__class__ ob) ∧
          ∀ c, c ∈ __mro__ (__class__ ob) → x ∈ tracked st c.

(** The dictionary that [__init__] leaves in a new instance. *)
Definition initial_dict (when order clock : pyval) : gmap string pyval :=
  <["_active" := VBool true]> (<["_contained_objects" := VList []]>
    (<["_clock" := clock]> (<["order" := order]> (<["when" := when]> ∅)))).


(** Executable forms of [bounded] and [registry_wf], to evaluate them on
    concrete states. *)
Fixpoint boundedb (d : nat) (h : gmap oid pyobject) (o : oid) : bool :=
  match d with
  | O => false
  | S d' =>
      match h !! o with
      | Some ob =>
          BrianObject.derived (__class__ ob) &&
          match __dict__ ob !! "_contained_objects" with
          | Some (VList l) => forallb (boundedb d' h) l
          | _ => false
          end
      | None => false
      end
  end.


Definition handle_ok (st : state) (T : cname) (x : oid) : bool :=
  match heap st !! x with
  | Some ob =>
      bool_decide (NoDup (__mro__ (__class__ ob))) &&
      bool_decide (T ∈ __mro__ (__class__ ob)) &&
      forallb (λ c, bool_decide (x ∈ tracked st c)) (__mro__ (__class__ ob))
  | None => false
  end.

Definition registry_wfb (st : state) : bool :=
  forallb (λ Ts : cname * gset oid, forallb (handle_ok st Ts.1) (elements Ts.2))
    (map_to_list (__instancesets__ st)).

(** ** Example classes and states *)

Module Examples.

Definition object : pyclass :=
  {| __name__ := "object"; __mro__ := ["object"]; _track_instances := false |}.

(** [class NeuronGroup(BrianObject): pass] *)
Definition NeuronGroup : pyclass :=
  {| __name__ := "NeuronGroup";
     __mro__ := ["NeuronGroup"; BrianObject.name; InstanceTracker.name; "object"];
     _track_instances := true |}.

(** [class Untracked(InstanceTracker): _track_instances = False] *)
Definition Untracked : pyclass :=
  {| __name__ := "Untracked";
     __mro__ := ["Untracked"; InstanceTracker.name; "object"];
     _track_instances := false |}.

Definition empty : state := {| heap := ∅; __instancesets__ := ∅ |}.

(** After [g = NeuronGroup()]. *)
Definition one_group : state :=
  (BrianObject.construct NeuronGroup BrianObject.default_when
     BrianObject.default_order BrianObject.default_clock empty).2.

(** After [g = NeuronGroup(); m = BrianObject();
    g.contained_objects.append(m)]: object 0 contains object 1. *)
Definition compound : state :=
  let st := (BrianObject.construct BrianObject.cls BrianObject.default_when
               BrianObject.default_order BrianObject.default_clock one_group).2 in
  set_heap (alter (store_attr "_contained_objects" (VList [1])) 0) st.

(** After [g = BrianObject(); g.contained_objects.append(g)]: object 0
    contains itself. *)
Definition cyclic : state :=
  let st := (BrianObject.construct BrianObject.cls BrianObject.default_when
               BrianObject.default_order BrianObject.default_clock empty).2 in
  set_heap (alter (store_attr "_contained_objects" (VList [0])) 0) st.

(** A weak set that still holds a reference to the collected object 0. *)
Definition stale : state :=
  {| heap := ∅; __instancesets__ := {[ BrianObject.name := {[ 0 ]} ]} |}.

End Examples.

(** * Properties *)

#[local] Set Warnings "-clear-no-such-hyp".

Open Scope list_scope.
Open Scope nat_scope.

(** ** The monad and the loop *)

Lemma bind_ok {A B} (m : M A) (k : A → M B) st a st' :
  m st = (Ok a, st') → bind m k st = k a st'.
Proof. intros H. unfold bind. by rewrite H. Qed.

Lemma bind_raise {A B} (m : M A) (k : A → M B) st e st' :
  m st = (Raise e, st') → bind m k st = (Raise e, st').
Proof. intros H. unfold bind. by rewrite H. Qed.

Lemma bind_inv_ok {A B} (m : M A) (k : A → M B) st b st' :
  bind m k st = (Ok b, st') → ∃ a st1, m st = (Ok a, st1) ∧ k a st1 = (Ok b, st').
Proof.
  unfold bind. destruct (m st) as [[a|e] st1]; [eauto | discriminate].
Qed.

(** A loop that runs to its end establishes an invariant indexed by the
    elements already processed. *)
Lemma for_each_ok_inv {A} (I : list A → state → Prop) (body : A → M unit) l st st' :
  for_each l body st = (Ok tt, st') →
  I [] st →
  (∀ done x rest st1 st2, l = done ++ x :: rest → I done st1 →
     body x st1 = (Ok tt, st2) → I (done ++ [x]) st2) →
  I l st'.
Proof.
  intros Hrun H0 Hstep.
  cut (∀ rest done st1, l = done ++ rest → I done st1 →
         for_each rest body st1 = (Ok tt, st') → I l st').
  { intros Hcut. by apply (Hcut l [] st). }
  induction rest as [|x rest IH]; intros done st1 Hl HI Hr; simpl in Hr.
  - injection Hr as <-. by rewrite Hl, app_nil_r.
  - apply bind_inv_ok in Hr as ([] & st2 & Hx & Hr).
    apply (IH (done ++ [x]) st2); [by rewrite <- app_assoc | | done].
    by eapply Hstep.
Qed.

(** A loop whose body succeeds under an invariant runs to its end. *)
Lemma for_each_total {A} (I : list A → state → Prop) (body : A → M unit) l st :
  I [] st →
  (∀ done x rest st1, l = done ++ x :: rest → I done st1 →
     ∃ st2, body x st1 = (Ok tt, st2) ∧ I (done ++ [x]) st2) →
  ∃ st', for_each l body st = (Ok tt, st') ∧ I l st'.
Proof.
  intros H0 Hstep.
  cut (∀ rest done st1, l = done ++ rest → I done st1 →
         ∃ st', for_each rest body st1 = (Ok tt, st') ∧ I l st').
  { intros Hcut. by apply (Hcut l [] st). }
  induction rest as [|x rest IH]; intros done st1 Hl HI; simpl.
  - exists st1. split; [done |]. by rewrite Hl, app_nil_r.
  - destruct (Hstep done x rest st1 Hl HI) as (st2 & Hx & HI2).
    destruct (IH (done ++ [x]) st2) as (st' & Hr & HI'); [by rewrite <- app_assoc | done |].
    exists st'. split; [| done]. by rewrite (bind_ok _ _ _ _ _ Hx).
Qed.

(** ** The registry *)

Lemma tracked_insert st T T' s :
  tracked (set_instancesets <[T := s]> st) T' =
  if decide (T = T') then s else tracked st T'.
Proof.
  unfold tracked, set_instancesets; simpl. rewrite lookup_insert.
  by destruct (decide (T = T')).
Qed.

Lemma add_step_ok cls value st :
  (InstanceFollower.ensure cls ;; InstanceFollower.add_to cls value) st =
  (Ok tt, set_instancesets <[cls := {[ value ]} ∪ tracked st cls]> st).
Proof.
  unfold InstanceFollower.ensure, InstanceFollower.add_to, bind, gets, modify, ret, tracked.
  destruct (__instancesets__ st !! cls) as [s|] eqn:Hs; simpl.
  - by rewrite Hs.
  - rewrite lookup_insert_eq. unfold set_instancesets; simpl.
    by rewrite insert_insert_eq.
Qed.

Lemma add_loop_ok value mro st :
  ∃ st', for_each mro (λ cls, InstanceFollower.ensure cls ;; InstanceFollower.add_to cls value) st
           = (Ok tt, st') ∧
         heap st' = heap st ∧
         (∀ T, T ∈ mro → ∃ s, __instancesets__ st' !! T = Some s ∧ s = {[ value ]} ∪ tracked st T) ∧
         (∀ T, T ∉ mro → __instancesets__ st' !! T = __instancesets__ st !! T).
Proof.
  revert st. induction mro as [|c mro IH]; intros st; simpl.
  - exists st. repeat split; try done. intros T HT. by apply elem_of_nil in HT.
  - rewrite (bind_ok _ _ _ _ _ (add_step_ok c value st)).
    destruct (IH (set_instancesets <[c := {[ value ]} ∪ tracked st c]> st))
      as (st' & Hrun & Hheap & Hin & Hout).
    exists st'. split; [done |]. split; [done |]. split.
    + intros T HT. destruct (decide (T ∈ mro)) as [Hm|Hm].
      * destruct (Hin T Hm) as (s & Hs & ->). exists ({[value]} ∪ tracked st T).
        split; [| done]. rewrite Hs, tracked_insert. f_equal.
        destruct (decide (c = T)) as [->|]; [| done].
        by rewrite (assoc_L (∪)), union_idemp_L.
      * apply elem_of_cons in HT as [->|]; [| done].
        rewrite (Hout c Hm); simpl. rewrite lookup_insert_eq. eauto.
    + intros T HT. apply not_elem_of_cons in HT as [Hne Hm].
      rewrite (Hout T Hm); simpl. by rewrite lookup_insert_ne.
Qed.

Lemma add_ok value ob st :
  heap st !! value = Some ob →
  ∃ st', InstanceFollower.add value st = (Ok tt, st') ∧
         heap st' = heap st ∧
         (∀ T, T ∈ __mro__ (__class__ ob) →
            ∃ s, __instancesets__ st' !! T = Some s ∧ s = {[ value ]} ∪ tracked st T) ∧
         (∀ T, T ∉ __mro__ (__class__ ob) →
            __instancesets__ st' !! T = __instancesets__ st !! T).
Proof.
  intros Hob. unfold InstanceFollower.add.
  assert (class_of value st = (Ok (__class__ ob), st)) as Hc
    by (unfold class_of; by rewrite Hob).
  rewrite (bind_ok _ _ _ _ _ Hc). apply add_loop_ok.
Qed.

Lemma new_ok c st :
  let o := fresh (dom (heap st)) in
  ∃ st', InstanceTracker.__new__ c st = (Ok o, st') ∧
         heap st' = <[o := {| __class__ := c; __dict__ := ∅ |}]> (heap st) ∧
         (_track_instances c = true → ∀ T, T ∈ __mro__ c →
            ∃ s, __instancesets__ st' !! T = Some s ∧ s = {[ o ]} ∪ tracked st T) ∧
         (_track_instances c = true → ∀ T, T ∉ __mro__ c →
            __instancesets__ st' !! T = __instancesets__ st !! T) ∧
         (_track_instances c = false → __instancesets__ st' = __instancesets__ st).
Proof.
  intros o. unfold InstanceTracker.__new__, InstanceTracker.object_new.
  unfold bind at 1. fold o.
  set (st1 := set_heap <[o := {| __class__ := c; __dict__ := ∅ |}]> st).
  destruct (_track_instances c) eqn:Ht.
  - destruct (add_ok o {| __class__ := c; __dict__ := ∅ |} st1) as (st' & Hrun & Hh & Hin & Hout).
    { simpl. apply lookup_insert_eq. }
    rewrite (bind_ok _ _ _ _ _ Hrun). exists st'. unfold ret. repeat split; try done.
  - exists st1. repeat split; try done.
Qed.

(** ** Construction *)

Lemma setattr_ok o k v ob st :
  heap st !! o = Some ob →
  setattr o k v st = (Ok tt, set_heap <[o := store_attr k v ob]> st).
Proof. intros H. unfold setattr. by rewrite H. Qed.

Lemma init_ok self ob when order clock st :
  heap st !! self = Some ob →
  BrianObject.isinstance_str when = true →
  clock = VNone ∨ BrianObject.isinstance_Clock clock = true →
  BrianObject.__init__ self when order clock st =
  (Ok tt, set_heap <[self :=
     {| __class__ := __class__ ob;
        __dict__ :=
          <["_active" := VBool true]> (<["_contained_objects" := VList []]>
            (<["_clock" := match clock with VNone => VClock defaultclock | _ => clock end]>
              (<["order" := order]> (<["when" := when]> (__dict__ ob))))) |}]> st).
Proof.
  intros Hob Hw Hc. unfold BrianObject.__init__. rewrite Hw; simpl.
  set (clock' := match clock with VNone => VClock defaultclock | _ => clock end).
  assert (BrianObject.isinstance_Clock clock' = true) as ->.
  { destruct Hc as [->|Hc]; [done |]. by destruct clock. }
  simpl.
  rewrite (bind_ok _ _ _ _ _ (setattr_ok _ _ _ _ _ Hob)).
  repeat (erewrite bind_ok; [| apply setattr_ok; simpl; apply lookup_insert_eq]).
  erewrite setattr_ok; [| simpl; apply lookup_insert_eq].
  unfold set_heap; simpl. by rewrite !insert_insert_eq.
Qed.

Lemma init_bad_when self when order clock st :
  BrianObject.isinstance_str when = false →
  BrianObject.__init__ self when order clock st = (Raise TypeError, st).
Proof. intros H. unfold BrianObject.__init__. by rewrite H. Qed.

Lemma init_bad_clock self when order clock st :
  BrianObject.isinstance_str when = true →
  clock ≠ VNone → BrianObject.isinstance_Clock clock = false →
  BrianObject.__init__ self when order clock st = (Raise TypeError, st).
Proof.
  intros Hw Hn Hc. unfold BrianObject.__init__. rewrite Hw; simpl.
  destruct clock; try done.
Qed.

(** Claim C3.  Constructing a [BrianObject] with a [when] that is not a [str]
    (such as [42]) raises [TypeError]; with a [str] for [when] and a [clock]
    that is neither omitted nor a [Clock] (such as ["not-a-clock"]) it raises
    [TypeError]; with [clock] omitted it returns an object whose [when] and
    [order] are the ones given, whose clock is [defaultclock], whose
    [contained_objects] is the empty list and whose [active] is [True]. *)
Theorem construct_contract (c : pyclass) (st : state) (when order clock : pyval) :
  (BrianObject.isinstance_str when = false →
     (BrianObject.construct c when order clock st).1 = Raise TypeError) ∧
  (BrianObject.isinstance_str when = true → clock ≠ VNone →
     BrianObject.isinstance_Clock clock = false →
     (BrianObject.construct c when order clock st).1 = Raise TypeError) ∧
  (BrianObject.isinstance_str when = true →
     ∃ o st', BrianObject.construct c when order BrianObject.default_clock st = (Ok o, st') ∧
       heap st' !! o = Some {| __class__ := c;
                               __dict__ := initial_dict when order (VClock defaultclock) |} ∧
       BrianObject.clock o st' = (Ok (VClock defaultclock), st') ∧
       BrianObject.contained_objects o st' = (Ok (VList []), st') ∧
       BrianObject.active o st' = (Ok (VBool true), st')).
Proof.
  destruct (new_ok c st) as (st1 & Hnew & Hheap & _).
  set (o := fresh (dom (heap st))) in *.
  assert (heap st1 !! o = Some {| __class__ := c; __dict__ := ∅ |}) as Hob
    by (rewrite Hheap; apply lookup_insert_eq).
  unfold BrianObject.construct. rewrite (bind_ok _ _ _ _ _ Hnew).
  split; [| split].
  - intros Hw. by rewrite (bind_raise _ _ _ _ _ (init_bad_when o _ _ _ st1 Hw)).
  - intros Hw Hn Hc. by rewrite (bind_raise _ _ _ _ _ (init_bad_clock o _ _ _ st1 Hw Hn Hc)).
  - intros Hw. unfold BrianObject.default_clock. eexists o, _.
    rewrite (bind_ok _ _ _ _ _ Hnew).
    rewrite (bind_ok _ _ _ _ _ (init_ok o _ when order VNone st1 Hob Hw (or_introl eq_refl))).
    split; [reflexivity |]. simpl.
    split; [apply lookup_insert_eq |].
    unfold BrianObject.clock, BrianObject.contained_objects, BrianObject.active,
      getattr, dict_of, bind; simpl.
    rewrite lookup_insert_eq; simpl. done.
Qed.

(** Claim C9.  [order] is not validated: whatever value it is, construction
    with a [str] for [when] and a clock that is omitted or a [Clock] succeeds
    and stores that very value as [order]. *)
Theorem order_unchecked (c : pyclass) (st : state) (when order clock : pyval) :
  BrianObject.isinstance_str when = true →
  clock = VNone ∨ BrianObject.isinstance_Clock clock = true →
  ∃ o st' ob, BrianObject.construct c when order clock st = (Ok o, st') ∧
    heap st' !! o = Some ob ∧ __dict__ ob !! "order" = Some order.
Proof.
  intros Hw Hc.
  destruct (new_ok c st) as (st1 & Hnew & Hheap & _).
  set (o := fresh (dom (heap st))) in *.
  assert (heap st1 !! o = Some {| __class__ := c; __dict__ := ∅ |}) as Hob
    by (rewrite Hheap; apply lookup_insert_eq).
  unfold BrianObject.construct. rewrite (bind_ok _ _ _ _ _ Hnew).
  rewrite (bind_ok _ _ _ _ _ (init_ok o _ when order clock st1 Hob Hw Hc)).
  eexists o, _, _. split; [reflexivity |]. simpl.
  split; [apply lookup_insert_eq |]. done.
Qed.

(** ** Queries *)

Lemma follower_get_eq T st :
  InstanceFollower.get T st = (Ok (WeakSet.get (heap st) (tracked st T)), st).
Proof.
  unfold InstanceFollower.get, bind, gets, ret, tracked.
  destruct (__instancesets__ st !! T) as [s|]; simpl; [done |].
  unfold WeakSet.get. by rewrite elements_empty.
Qed.

Lemma get_instances_eq (T : pyclass) st :
  InstanceTracker.name ∈ __mro__ T →
  get_instances T st = (Ok (WeakSet.get (heap st) (tracked st (__name__ T))), st).
Proof.
  intros HT. unfold get_instances, InstanceTracker.has_instancefollower.
  rewrite bool_decide_eq_true_2 by done. apply follower_get_eq.
Qed.

Lemma elem_of_snapshot_ref h (s : gset nat) o :
  VRef o ∈ WeakSet.get h s ↔ o ∈ s ∧ is_Some (h !! o).
Proof.
  unfold WeakSet.get. rewrite list_elem_of_fmap. split.
  - intros (wr & Hwr & Hin). apply elem_of_elements in Hin.
    unfold WeakSet.call in Hwr. destruct (h !! wr) eqn:Hl; [| done].
    injection Hwr as ->. eauto.
  - intros (Hin & ob & Hob). exists o. split; [| by apply elem_of_elements].
    unfold WeakSet.call. by rewrite Hob.
Qed.

Lemma elem_of_snapshot_None h (s : gset nat) :
  VNone ∈ WeakSet.get h s ↔ ∃ o, o ∈ s ∧ h !! o = None.
Proof.
  unfold WeakSet.get. rewrite list_elem_of_fmap. split.
  - intros (wr & Hwr & Hin). apply elem_of_elements in Hin.
    unfold WeakSet.call in Hwr. destruct (h !! wr) eqn:Hl; [done | eauto].
  - intros (o & Hin & Hob). exists o. split; [| by apply elem_of_elements].
    unfold WeakSet.call. by rewrite Hob.
Qed.

Lemma elem_of_snapshot h (s : gset nat) v :
  v ∈ WeakSet.get h s → v = VNone ∨ ∃ o, v = VRef o.
Proof.
  unfold WeakSet.get. rewrite list_elem_of_fmap. intros (wr & -> & _).
  unfold WeakSet.call. destruct (h !! wr); eauto.
Qed.

Lemma elem_of_tracked st T x :
  x ∈ tracked st T ↔ ∃ s, __instancesets__ st !! T = Some s ∧ x ∈ s.
Proof.
  unfold tracked. destruct (__instancesets__ st !! T) as [s|]; simpl.
  - split; [eauto | by intros (? & [= <-] & ?)].
  - split; [by intros ?%not_elem_of_empty | by intros (? & ? & ?)].
Qed.

Lemma get_instances_raises (T : pyclass) st :
  InstanceTracker.name ∉ __mro__ T → get_instances T st = (Raise TypeError, st).
Proof.
  intros HT. unfold get_instances, InstanceTracker.has_instancefollower.
  by rewrite bool_decide_eq_false_2.
Qed.

(** Claim C4.  [get_instances(T)] raises [TypeError] for a type [T] that does
    not derive from [InstanceTracker], and returns the empty list for a type
    that does and has no entry in the registry yet. *)
Theorem get_instances_untracked_or_empty (T : pyclass) (st : state) :
  (InstanceTracker.name ∉ __mro__ T → get_instances T st = (Raise TypeError, st)) ∧
  (InstanceTracker.name ∈ __mro__ T → __instancesets__ st !! __name__ T = None →
     get_instances T st = (Ok [], st)).
Proof.
  split.
  - apply get_instances_raises.
  - intros HT Hnone. rewrite get_instances_eq by done.
    unfold tracked. rewrite Hnone; simpl. unfold WeakSet.get. by rewrite elements_empty.
Qed.

(** Claim C8, as amended.  The snapshot calls every weak reference of the
    set and filters nothing: it has one entry per reference, a live instance
    for a reference that resolves and [None] for one whose referent has been
    collected.  It is free of [None], and holds live instances only, when
    every reference in the registry resolves, which is what removing a
    reference at the destruction of its referent maintains (see
    [finalize_preserves_wf]). *)
Theorem snapshot_dereferences (T : pyclass) (st : state) :
  InstanceTracker.name ∈ __mro__ T →
  ∃ l, get_instances T st = (Ok l, st) ∧
       length l = size (tracked st (__name__ T)) ∧
       (∀ o, VRef o ∈ l ↔ o ∈ tracked st (__name__ T) ∧ is_Some (heap st !! o)) ∧
       (VNone ∈ l ↔ ∃ o, o ∈ tracked st (__name__ T) ∧ heap st !! o = None) ∧
       (registry_wf st → ∀ v, v ∈ l → ∃ o, v = VRef o ∧ is_Some (heap st !! o)).
Proof.
  intros HT. eexists. split; [by apply get_instances_eq |].
  split; [| split; [| split]].
  - unfold WeakSet.get. by rewrite length_fmap.
  - apply elem_of_snapshot_ref.
  - apply elem_of_snapshot_None.
  - intros Hwf v Hv. destruct (elem_of_snapshot _ _ _ Hv) as [->|[o ->]].
    + apply elem_of_snapshot_None in Hv as (o & Ho & Hnone).
      apply elem_of_tracked in Ho as (s & Hs & Ho).
      destruct (Hwf _ _ _ Hs Ho) as (ob & Hob & _). congruence.
    + apply elem_of_snapshot_ref in Hv as [_ Hv]. eauto.
Qed.

(** Claim C8 fails as stated: a set that still holds a reference to a
    collected object yields [None] in the snapshot. *)
Lemma snapshot_returns_None :
  InstanceTracker.name ∈ __mro__ BrianObject.cls ∧
  get_instances BrianObject.cls Examples.stale = (Ok [VNone], Examples.stale).
Proof. split; [set_solver | reflexivity]. Qed.

(** Claim C1, as amended.  Creating an instance [x] of a class whose
    instances are tracked files a weak reference to [x] under every class of
    the MRO, [object] included, and [x] is in [get_instances(T)] for every
    class [T] of the MRO that itself derives from [InstanceTracker]; for the
    others [get_instances] raises [TypeError]. *)
Theorem new_registers_under_mro (C : pyclass) (st : state) :
  _track_instances C = true →
  ∃ x st', InstanceTracker.__new__ C st = (Ok x, st') ∧
    (∀ T, T ∈ __mro__ C → x ∈ tracked st' T) ∧
    (∀ T : pyclass, __name__ T ∈ __mro__ C → InstanceTracker.name ∈ __mro__ T →
       ∃ l, get_instances T st' = (Ok l, st') ∧ VRef x ∈ l) ∧
    (∀ T : pyclass, InstanceTracker.name ∉ __mro__ T →
       get_instances T st' = (Raise TypeError, st')).
Proof.
  intros Ht. destruct (new_ok C st) as (st' & Hnew & Hheap & Hin & _).
  set (x := fresh (dom (heap st))) in *. specialize (Hin Ht).
  assert (∀ T, T ∈ __mro__ C → x ∈ tracked st' T) as Htr.
  { intros T HT. destruct (Hin T HT) as (s & Hs & ->).
    apply elem_of_tracked. exists ({[x]} ∪ tracked st T). split; [done | set_solver]. }
  exists x, st'. split; [done |]. split; [done |]. split.
  - intros T HT Hder. eexists. split; [by apply get_instances_eq |].
    apply elem_of_snapshot_ref. split; [by apply Htr |].
    rewrite Hheap, lookup_insert_eq. eauto.
  - intros T HT. by apply get_instances_raises.
Qed.

(** Claim C1 fails as stated: [object] is in the MRO of [NeuronGroup] and
    the registry entry of [object] holds the new instance, yet
    [get_instances(object)] raises [TypeError]. *)
Lemma get_instances_object_raises :
  BrianObject.construct Examples.NeuronGroup BrianObject.default_when
    BrianObject.default_order BrianObject.default_clock Examples.empty
    = (Ok 0, Examples.one_group) ∧
  "object" ∈ __mro__ Examples.NeuronGroup ∧
  0 ∈ tracked Examples.one_group (__name__ Examples.object) ∧
  get_instances Examples.object Examples.one_group = (Raise TypeError, Examples.one_group).
Proof.
  split; [reflexivity |]. split; [set_solver |]. split; [| reflexivity].
  vm_compute. done.
Qed.

(** Removing an instance that the entry of its class does not hold raises
    [KeyError], after the entry has been created if it was missing. *)
Lemma remove_absent_raises x ob c mro st :
  heap st !! x = Some ob → __mro__ (__class__ ob) = c :: mro → x ∉ tracked st c →
  InstanceTracker._stop_tracking x st =
  (Raise KeyError,
   match __instancesets__ st !! c with
   | Some _ => st
   | None => set_instancesets <[c := ∅]> st
   end).
Proof.
  intros Hob Hmro Hx.
  unfold InstanceTracker._stop_tracking, InstanceFollower.remove.
  assert (class_of x st = (Ok (__class__ ob), st)) as Hc
    by (unfold class_of; by rewrite Hob).
  rewrite (bind_ok _ _ _ _ _ Hc), Hmro; simpl.
  unfold InstanceFollower.ensure, InstanceFollower.remove_from, bind, gets, modify, ret, raise.
  unfold tracked in Hx.
  destruct (__instancesets__ st !! c) as [s|] eqn:Hs; simpl in *.
  - rewrite Hs. unfold WeakSet.remove. by rewrite decide_False.
  - rewrite lookup_insert_eq. unfold WeakSet.remove. by rewrite decide_False.
Qed.

(** Claim C2 does not hold of the code.  After [g = NeuronGroup()], the
    first [g._stop_tracking()] returns and the second raises [KeyError]; and
    on an instance of a class with [_track_instances = False], never added,
    [_stop_tracking()] raises [KeyError] after having created an empty entry
    for the class of the instance. *)
Theorem stop_tracking_twice_raises :
  (∃ st2 st3,
     InstanceTracker._stop_tracking 0 Examples.one_group = (Ok tt, st2) ∧
     InstanceTracker._stop_tracking 0 st2 = (Raise KeyError, st3) ∧
     get_instances BrianObject.cls st2 = (Ok [], st2)) ∧
  (∃ u st1 st2,
     InstanceTracker.__new__ Examples.Untracked Examples.empty = (Ok u, st1) ∧
     __instancesets__ st1 = ∅ ∧
     InstanceTracker._stop_tracking u st1 = (Raise KeyError, st2) ∧
     __instancesets__ st2 = {[ "Untracked" := ∅ ]}).
Proof.
  split.
  - eexists _, _. split; [reflexivity |]. split; reflexivity.
  - eexists _, _, _. split; [reflexivity |]. split; [reflexivity |].
    split; reflexivity.
Qed.

(** ** Heaps that differ in [_active] flags only *)

Lemma store_attr_idemp k v ob : store_attr k v (store_attr k v ob) = store_attr k v ob.
Proof. unfold store_attr; simpl. by rewrite insert_insert_eq. Qed.

Lemma store_attr_class k v ob : __class__ (store_attr k v ob) = __class__ ob.
Proof. done. Qed.

Lemma store_active_contained v ob :
  __dict__ (store_attr "_active" v ob) !! "_contained_objects" =
  __dict__ ob !! "_contained_objects".
Proof. unfold store_attr; simpl. by rewrite lookup_insert_ne. Qed.


Lemma flagged_trans v h1 h2 h3 : flagged v h1 h2 → flagged v h2 h3 → flagged v h1 h3.
Proof.
  intros H12 H23 o. destruct (H23 o) as [E23|(ob2 & E2 & E3)].
  - rewrite E23. apply H12.
  - destruct (H12 o) as [E12|(ob1 & E1 & E2')].
    + right. exists ob2. by rewrite <- E12.
    + right. exists ob1. split; [done |]. rewrite E3. rewrite E2' in E2.
      injection E2 as <-. by rewrite store_attr_idemp.
Qed.

Lemma flagged_insert v h o ob :
  h !! o = Some ob → flagged v h (<[o := store_attr "_active" v ob]> h).
Proof.
  intros Hob o'. destruct (decide (o = o')) as [<-|Hne].
  - right. exists ob. by rewrite lookup_insert_eq.
  - left. by rewrite lookup_insert_ne.
Qed.

(** What [flagged] preserves: the class and the contained objects of every
    object. *)
Lemma flagged_lookup v h h' o ob :
  flagged v h h' → h !! o = Some ob →
  ∃ ob', h' !! o = Some ob' ∧ __class__ ob' = __class__ ob ∧
         __dict__ ob' !! "_contained_objects" = __dict__ ob !! "_contained_objects".
Proof.
  intros Hf Hob. destruct (Hf o) as [E|(ob0 & E0 & E)].
  - exists ob. by rewrite E.
  - rewrite Hob in E0. injection E0 as <-. exists (store_attr "_active" v ob).
    split; [done |]. split; [done | apply store_active_contained].
Qed.

Lemma flagged_lookup_inv v h h' o ob' :
  flagged v h h' → h' !! o = Some ob' →
  ∃ ob, h !! o = Some ob ∧ __class__ ob' = __class__ ob ∧
        __dict__ ob' !! "_contained_objects" = __dict__ ob !! "_contained_objects".
Proof.
  intros Hf Hob. destruct (Hf o) as [E|(ob0 & E0 & E)].
  - exists ob'. by rewrite <- E.
  - rewrite Hob in E. injection E as ->. exists ob0.
    split; [done |]. split; [done | apply store_active_contained].
Qed.

Lemma flagged_contains v h h' a b : flagged v h h' → contains h' a b ↔ contains h a b.
Proof.
  intros Hf. split.
  - intros (ob' & l & Hob & Hl & Hb).
    destruct (flagged_lookup_inv _ _ _ _ _ Hf Hob) as (ob & Ho & _ & Hc).
    exists ob, l. by rewrite <- Hc.
  - intros (ob & l & Hob & Hl & Hb).
    destruct (flagged_lookup _ _ _ _ _ Hf Hob) as (ob' & Ho & _ & Hc).
    exists ob', l. by rewrite Hc.
Qed.

Lemma flagged_reach v h h' a b : flagged v h h' → reach h' a b ↔ reach h a b.
Proof.
  intros Hf. unfold reach. split; induction 1 as [|x y z Hxy _ IH]; try done.
  - eapply rtc_l; [| done]. by apply (flagged_contains _ _ _ _ _ Hf).
  - eapply rtc_l; [| done]. by apply (flagged_contains _ _ _ _ _ Hf).
Qed.

Lemma flagged_is_BrianObject v h h' o :
  flagged v h h' → is_BrianObject h o → is_BrianObject h' o.
Proof.
  intros Hf (ob & Hob & Hd).
  destruct (flagged_lookup _ _ _ _ _ Hf Hob) as (ob' & Ho & Hc & _).
  exists ob'. by rewrite Hc.
Qed.

Lemma flagged_active v h h' o :
  flagged v h h' → active_of h o = Some v → active_of h' o = Some v.
Proof.
  intros Hf Ha. unfold active_of in *. destruct (Hf o) as [E|(ob & E0 & E)].
  - by rewrite E.
  - rewrite E; simpl. apply lookup_insert_eq.
Qed.

Lemma flagged_bounded v h h' d o : flagged v h h' → bounded d h o → bounded d h' o.
Proof.
  intros Hf. revert o. induction d as [|d IH]; intros o; simpl; [done |].
  intros (ob & l & Hob & Hd & Hl & Hall).
  destruct (flagged_lookup _ _ _ _ _ Hf Hob) as (ob' & Ho & Hc & Hco).
  exists ob', l. rewrite Hc, Hco. repeat split; try done.
  eapply Forall_impl; [done | auto].
Qed.

Lemma flagged_bounded_inv v h h' d o : flagged v h h' → bounded d h' o → bounded d h o.
Proof.
  intros Hf. revert o. induction d as [|d IH]; intros o; simpl; [done |].
  intros (ob' & l & Hob & Hd & Hl & Hall).
  destruct (flagged_lookup_inv _ _ _ _ _ Hf Hob) as (ob & Ho & Hc & Hco).
  exists ob, l. rewrite <- Hc, <- Hco. repeat split; try done.
  eapply Forall_impl; [done | auto].
Qed.

(** ** The containment graph *)

Lemma contains_inv h p c ob l :
  h !! p = Some ob → __dict__ ob !! "_contained_objects" = Some (VList l) →
  contains h p c → c ∈ l.
Proof. intros Hob Hl (ob' & l' & Hob' & Hl' & Hc). congruence. Qed.

Lemma bounded_mono d d' h o : d ≤ d' → bounded d h o → bounded d' h o.
Proof.
  revert d' o. induction d as [|d IH]; intros d' o Hle; simpl; [done |].
  destruct d' as [|d']; [lia |]. simpl.
  intros (ob & l & Hob & Hd & Hl & Hall). exists ob, l. repeat split; try done.
  eapply Forall_impl; [done |]. intros c. apply IH. lia.
Qed.

Lemma bounded_contains d h o c : bounded (S d) h o → contains h o c → bounded d h c.
Proof.
  simpl. intros (ob & l & Hob & Hd & Hl & Hall) Hc.
  eapply (proj1 (Forall_forall _ _) Hall). by eapply contains_inv.
Qed.

Lemma bounded_reach d h o x : bounded d h o → reach h o x → bounded d h x.
Proof.
  intros Hb Hr. induction Hr as [|x y z Hxy _ IH]; [done |].
  apply IH. destruct d as [|d]; [done |].
  apply (bounded_mono d); [lia |]. by eapply bounded_contains.
Qed.

Lemma bounded_initialised d h o : bounded d h o → initialised h o.
Proof.
  destruct d; simpl; [done |]. intros (ob & l & ? & ? & ? & _). by exists ob, l.
Qed.

Lemma tc_inv_l {A} (R : relation A) x z : tc R x z → ∃ y, R x y ∧ rtc R y z.
Proof.
  inversion 1 as [? ? Hxz|? y ? Hxy Hyz]; subst.
  - exists z. split; [done | apply rtc_refl].
  - exists y. split; [done | by apply tc_rtc].
Qed.

Lemma bounded_no_cycle d h x : bounded d h x → ¬ tc (contains h) x x.
Proof.
  revert x. induction d as [|d IH]; intros x Hb Hc; [done |].
  destruct (tc_inv_l _ _ _ Hc) as (y & Hxy & Hyx).
  apply (IH x); [| done].
  eapply bounded_reach; [| exact Hyx]. by eapply bounded_contains.
Qed.

Lemma bounded_acyclic d h p : bounded d h p → acyclic_from h p.
Proof. intros Hb x Hx. eapply bounded_no_cycle, bounded_reach; done. Qed.

(** In a finite heap a cascade that meets no cycle is bounded, by the
    number of objects: along a path of the graph no object occurs twice. *)
Lemma acyclic_bounded_aux h p :
  (∀ x, reach h p x → initialised h x) → acyclic_from h p →
  ∀ n (A : gset nat) o,
    reach h p o → (∀ a, a ∈ A → tc (contains h) a o) → A ⊆ dom h →
    size (dom h) ≤ n + size A → bounded n h o.
Proof.
  intros Hinit Hacyc. induction n as [|n IH]; intros A o Hpo HA Hsub Hsize.
  - destruct (Hinit o Hpo) as (ob & l & Hob & _).
    assert (A = dom h) as -> by (apply set_subseteq_size_eq; [done | simpl in Hsize; lia]).
    destruct (Hacyc o Hpo). apply HA, elem_of_dom. eauto.
  - destruct (Hinit o Hpo) as (ob & l & Hob & Hd & Hl).
    assert (o ∉ A) as HoA by (intros Hin; by destruct (Hacyc o Hpo); apply HA).
    exists ob, l. repeat split; try done.
    apply Forall_forall. intros c Hc.
    assert (contains h o c) as Hoc by (by exists ob, l).
    apply (IH ({[o]} ∪ A)).
    + eapply rtc_r; done.
    + intros a [->%elem_of_singleton|Ha]%elem_of_union.
      * by apply tc_once.
      * eapply tc_r; [by apply HA | done].
    + apply union_subseteq. split; [| done].
      apply singleton_subseteq_l, elem_of_dom. eauto.
    + rewrite size_union by set_solver. rewrite size_singleton. lia.
Qed.

Lemma acyclic_bounded h p :
  (∀ x, reach h p x → initialised h x) → acyclic_from h p →
  bounded (size (dom h)) h p.
Proof.
  intros Hinit Hacyc. apply (acyclic_bounded_aux h p Hinit Hacyc _ ∅).
  - apply rtc_refl.
  - intros a Ha. by apply not_elem_of_empty in Ha.
  - apply empty_subseteq.
  - rewrite size_empty. lia.
Qed.

(** ** The setter of [active] *)

Lemma set_active_S d p val :
  BrianObject._set_active (S d) p val =
  (let v := VBool (BrianObject.bool val) in
   setattr p "_active" v ;;
   objs <- BrianObject.contained_objects p ;;
   objs <- BrianObject.iter objs ;;
   for_each objs (λ obj, BrianObject.assign_active d obj v)).
Proof. reflexivity. Qed.

Lemma assign_active_BrianObject d o val st :
  is_BrianObject (heap st) o →
  BrianObject.assign_active d o val st = BrianObject._set_active d o val st.
Proof.
  intros (ob & Hob & Hd). unfold BrianObject.assign_active, bind, class_of.
  by rewrite Hob, Hd.
Qed.

Lemma set_active_step d p val st ob l :
  heap st !! p = Some ob →
  __dict__ ob !! "_contained_objects" = Some (VList l) →
  BrianObject._set_active (S d) p val st =
  for_each l (λ obj, BrianObject.assign_active d obj (VBool (BrianObject.bool val)))
    (set_heap <[p := store_attr "_active" (VBool (BrianObject.bool val)) ob]> st).
Proof.
  intros Hob Hl. rewrite set_active_S. cbv zeta.
  rewrite (bind_ok _ _ _ _ _ (setattr_ok _ _ _ _ _ Hob)).
  unfold BrianObject.contained_objects, getattr, dict_of, bind at 1 2; simpl.
  rewrite lookup_insert_eq, store_active_contained, Hl. reflexivity.
Qed.

Lemma set_active_ok_inv d p val st st' :
  BrianObject._set_active (S d) p val st = (Ok tt, st') →
  ∃ ob l, heap st !! p = Some ob ∧
          __dict__ ob !! "_contained_objects" = Some (VList l).
Proof.
  rewrite set_active_S. cbv zeta. intros Hrun.
  apply bind_inv_ok in Hrun as ([] & st1 & Hset & Hrun).
  unfold setattr in Hset. destruct (heap st !! p) as [ob|] eqn:Hob; [| done].
  injection Hset as <-.
  apply bind_inv_ok in Hrun as (objs & st2 & Hget & Hrun).
  unfold BrianObject.contained_objects, getattr, dict_of, bind in Hget; simpl in Hget.
  rewrite lookup_insert_eq, store_active_contained in Hget.
  destruct (__dict__ ob !! "_contained_objects") as [w|] eqn:Hw; [| done].
  injection Hget as <- <-.
  apply bind_inv_ok in Hrun as (l & st3 & Hit & _).
  destruct w; try done. injection Hit as <- <-. eauto.
Qed.

Lemma reach_inv h p x ob l :
  h !! p = Some ob → __dict__ ob !! "_contained_objects" = Some (VList l) →
  reach h p x → x = p ∨ ∃ c, c ∈ l ∧ reach h c x.
Proof.
  intros Hob Hl Hr. apply rtc_inv in Hr as [->|(c & Hpc & Hcx)]; [by left |].
  right. exists c. split; [by eapply contains_inv | done].
Qed.

Lemma bool_VBool b : BrianObject.bool (VBool b) = b.
Proof. done. Qed.

Lemma set_active_bool d p val :
  BrianObject._set_active d p val =
  BrianObject._set_active d p (VBool (BrianObject.bool val)).
Proof. by destruct d. Qed.

(** What a run of the setter that returns has done. *)
Lemma set_active_sound d : ∀ p b st st',
  (∀ x, reach (heap st) p x → is_BrianObject (heap st) x) →
  BrianObject._set_active d p (VBool b) st = (Ok tt, st') →
  __instancesets__ st' = __instancesets__ st ∧
  flagged (VBool b) (heap st) (heap st') ∧
  (∀ x, reach (heap st) p x → active_of (heap st') x = Some (VBool b)) ∧
  (∀ y, ¬ reach (heap st) p y → heap st' !! y = heap st !! y) ∧
  bounded d (heap st) p.
Proof.
  induction d as [|d IH]; intros p b st st' Hbrian Hrun; [done |].
  destruct (set_active_ok_inv _ _ _ _ _ Hrun) as (ob & l & Hob & Hl).
  rewrite (set_active_step _ _ _ _ _ _ Hob Hl), bool_VBool in Hrun.
  set (v := VBool b) in *. set (h := heap st) in *.
  set (st1 := set_heap <[p := store_attr "_active" v ob]> st) in *.
  pose (I := λ (done : list nat) (s : state),
    __instancesets__ s = __instancesets__ st ∧
    flagged v h (heap s) ∧
    active_of (heap s) p = Some v ∧
    (∀ c x, c ∈ done → reach h c x → active_of (heap s) x = Some v) ∧
    (∀ y, ¬ reach h p y → heap s !! y = h !! y) ∧
    Forall (bounded d h) done).
  assert (I l st') as (Hsets & Hfl & Hp & Hact & Hout & Hbd).
  { apply (for_each_ok_inv I _ _ _ _ Hrun).
    - split; [done |]. split; [by apply flagged_insert |].
      split; [| split; [by intros c x ?%elem_of_nil | split; [| done]]].
      + unfold active_of; simpl. rewrite lookup_insert_eq; simpl. apply lookup_insert_eq.
      + intros y Hy. simpl. apply lookup_insert_ne. intros <-. apply Hy, rtc_refl.
    - intros done c rest s1 s2 Hsplit (Hs1 & Hf1 & Hp1 & Ha1 & Ho1 & Hb1) Hbody.
      assert (c ∈ l) as Hcl.
      { rewrite Hsplit. apply elem_of_app. right. apply elem_of_cons. by left. }
      assert (contains h p c) as Hpc by (by exists ob, l).
      assert (∀ x, reach (heap s1) c x → is_BrianObject (heap s1) x) as Hbrian1.
      { intros x Hx. apply (flagged_is_BrianObject _ _ _ _ Hf1), Hbrian.
        eapply rtc_l; [done |]. by apply (flagged_reach _ _ _ _ _ Hf1). }
      rewrite assign_active_BrianObject in Hbody by apply Hbrian1, rtc_refl.
      destruct (IH _ _ _ _ Hbrian1 Hbody) as (Hs2 & Hf2 & Ha2 & Ho2 & Hb2).
      split; [congruence |].
      split; [by eapply flagged_trans |].
      split; [by eapply flagged_active |].
      split; [| split].
      + intros c' x [Hc'| ->%list_elem_of_singleton]%elem_of_app Hx.
        * eapply flagged_active; [done |]. by eapply Ha1.
        * by apply Ha2, (flagged_reach _ _ _ _ _ Hf1).
      + intros y Hy. rewrite Ho2, Ho1; [done | done |].
        intros Hcy. apply Hy. eapply rtc_l; [done |].
        by apply (flagged_reach _ _ _ _ _ Hf1).
      + apply Forall_app. split; [done |]. apply Forall_singleton.
        by apply (flagged_bounded_inv _ _ _ _ _ Hf1). }
  split; [done |]. split; [done |]. split; [| split; [done |]].
  - intros x Hx. destruct (reach_inv _ _ _ _ _ Hob Hl Hx) as [->|(c & Hc & Hcx)]; [done |].
    by eapply Hact.
  - destruct (Hbrian p (rtc_refl _ _)) as (ob' & Hob' & Hd).
    exists ob, l. repeat split; try done. congruence.
Qed.

(** A bounded cascade returns. *)
Lemma set_active_total d : ∀ p b st,
  bounded d (heap st) p →
  ∃ st', BrianObject._set_active d p (VBool b) st = (Ok tt, st') ∧
         flagged (VBool b) (heap st) (heap st').
Proof.
  induction d as [|d IH]; intros p b st Hb; [done |].
  destruct Hb as (ob & l & Hob & Hd & Hl & Hall).
  rewrite (set_active_step _ _ _ _ _ _ Hob Hl), bool_VBool.
  set (v := VBool b). set (h := heap st) in *.
  destruct (for_each_total (λ _ s, flagged v h (heap s))
              (λ obj, BrianObject.assign_active d obj v) l
              (set_heap <[p := store_attr "_active" v ob]> st)) as (st' & Hrun & Hf).
  - by apply flagged_insert.
  - intros done c rest s1 Hsplit Hf1.
    assert (bounded d (heap s1) c) as Hc.
    { apply (flagged_bounded _ _ _ _ _ Hf1).
      apply (proj1 (Forall_forall _ _) Hall).
      rewrite Hsplit. apply elem_of_app. right. apply elem_of_cons. by left. }
    destruct (IH c b s1 Hc) as (s2 & Hrun & Hf2).
    exists s2. split; [| by eapply flagged_trans].
    rewrite assign_active_BrianObject; [done |].
    destruct (bounded_initialised _ _ _ Hc) as (ob' & l' & ? & ? & _). by exists ob'.
  - by exists st'.
Qed.

Lemma initialised_is_BrianObject h o : initialised h o → is_BrianObject h o.
Proof. intros (ob & l & ? & ? & _). by exists ob. Qed.

(** Claim C5.  On a graph of [BrianObject]s, whenever [p.active = b]
    returns, [active] is [b] on every object reachable from [p] through
    [contained_objects], every object not reachable from [p] is as it was,
    and so is in particular every object that contains [p]: setting the flag
    of a child changes its own subtree only.  When the objects below [p] are
    initialised and no cycle is met, the assignment does return, for every
    recursion limit that is at least the number of objects. *)
Theorem active_cascade (st : state) (p : nat) (b : bool) :
  (∀ x, reach (heap st) p x → is_BrianObject (heap st) x) →
  (∀ depth st', BrianObject.assign_active depth p (VBool b) st = (Ok tt, st') →
     __instancesets__ st' = __instancesets__ st ∧
     (∀ x, reach (heap st) p x → active_of (heap st') x = Some (VBool b)) ∧
     (∀ y, ¬ reach (heap st) p y → heap st' !! y = heap st !! y) ∧
     (∀ q, contains (heap st) q p → heap st' !! q = heap st !! q)) ∧
  ((∀ x, reach (heap st) p x → initialised (heap st) x) → acyclic_from (heap st) p →
     ∀ depth, size (dom (heap st)) ≤ depth →
       ∃ st', BrianObject.assign_active depth p (VBool b) st = (Ok tt, st')).
Proof.
  intros Hbrian. split.
  - intros depth st' Hrun.
    rewrite assign_active_BrianObject in Hrun by apply Hbrian, rtc_refl.
    destruct (set_active_sound _ _ _ _ _ Hbrian Hrun) as (Hsets & _ & Hact & Hout & Hbd).
    repeat split; try done.
    intros q Hqp. apply Hout. intros Hpq.
    apply (bounded_no_cycle _ _ _ Hbd). eapply tc_rtc_l; [done | by apply tc_once].
  - intros Hinit Hacyc depth Hdepth.
    rewrite assign_active_BrianObject by apply Hbrian, rtc_refl.
    destruct (set_active_total depth p b st) as (st' & Hrun & _); [| by exists st'].
    eapply bounded_mono; [done |]. by apply acyclic_bounded.
Qed.

(** Claim C10.  For a [BrianObject] whose containment graph (finite, as the
    heap is) is acyclic, setting [active] terminates normally, for every
    recursion limit that is at least the number of objects; and acyclicity is
    needed: on a graph with a cycle the setter returns for no recursion
    limit. *)
Theorem set_active_terminates (st : state) (p : nat) (val : pyval) :
  (∀ x, reach (heap st) p x → initialised (heap st) x) →
  (acyclic_from (heap st) p →
     ∀ depth, size (dom (heap st)) ≤ depth →
       ∃ st', BrianObject.assign_active depth p val st = (Ok tt, st')) ∧
  (¬ acyclic_from (heap st) p →
     ∀ depth st', BrianObject.assign_active depth p val st ≠ (Ok tt, st')).
Proof.
  intros Hinit.
  assert (is_BrianObject (heap st) p) as Hp
    by apply initialised_is_BrianObject, Hinit, rtc_refl.
  split.
  - intros Hacyc depth Hdepth.
    rewrite assign_active_BrianObject, set_active_bool by done.
    destruct (set_active_total depth p (BrianObject.bool val) st) as (st' & Hrun & _);
      [| by exists st'].
    eapply bounded_mono; [done |]. by apply acyclic_bounded.
  - intros Hcyc depth st' Hrun. apply Hcyc.
    rewrite assign_active_BrianObject, set_active_bool in Hrun by done.
    apply set_active_sound in Hrun as (_ & _ & _ & _ & Hbd).
    + by eapply bounded_acyclic.
    + intros x Hx. by apply initialised_is_BrianObject, Hinit.
Qed.

(** ** Removal from the registry *)

Lemma tracked_lookup st T s : __instancesets__ st !! T = Some s → tracked st T = s.
Proof. intros H. unfold tracked. by rewrite H. Qed.




(** ** The loops of [clear] *)




(** ** Erasure *)




(** ** [clear] *)




(** ** Executable checks *)

Lemma registry_wfb_sound st : registry_wfb st = true → registry_wf st.
Proof.
  unfold registry_wfb. rewrite forallb_forall. intros Hall T s x Hs Hx.
  assert (In (T, s) (map_to_list (__instancesets__ st))) as Hin
    by (by apply list_elem_of_In, elem_of_map_to_list).
  specialize (Hall _ Hin). simpl in Hall. rewrite forallb_forall in Hall.
  assert (In x (elements s)) as Hinx by (by apply list_elem_of_In, elem_of_elements).
  specialize (Hall _ Hinx). unfold handle_ok in Hall.
  destruct (heap st !! x) as [ob|]; [| done]. exists ob. split; [done |].
  apply andb_true_iff in Hall as [[Hnd HT]%andb_true_iff Hmro].
  apply bool_decide_eq_true in Hnd, HT. repeat split; try done.
  intros c Hc. rewrite forallb_forall in Hmro.
  apply list_elem_of_In in Hc. specialize (Hmro c Hc).
  by apply bool_decide_eq_true in Hmro.
Qed.

(** ** The registry stays well formed *)

Lemma empty_wf : registry_wf Examples.empty.
Proof. intros T s x Hs. unfold Examples.empty in Hs; simpl in Hs. by rewrite lookup_empty in Hs. Qed.

Lemma new_preserves_wf c st :
  NoDup (__mro__ c) → registry_wf st →
  ∀ o st', InstanceTracker.__new__ c st = (Ok o, st') → registry_wf st'.
Proof.
  intros Hnd Hwf o st' Hrun.
  destruct (new_ok c st) as (st1 & Hnew & Hheap & Hin & Hout & Hoff).
  rewrite Hnew in Hrun. injection Hrun as <- <-.
  set (o := fresh (dom (heap st))) in *.
  assert (heap st !! o = None) as Hfresh by apply not_elem_of_dom, is_fresh.
  assert (∀ x ob, heap st !! x = Some ob → heap st1 !! x = Some ob) as Hold.
  { intros x ob Hob. rewrite Hheap, lookup_insert_ne; [done | congruence]. }
  destruct (_track_instances c) eqn:Ht.
  - specialize (Hin eq_refl). specialize (Hout eq_refl).
    assert (∀ T, tracked st T ⊆ tracked st1 T) as Hsub.
    { intros T. destruct (decide (T ∈ __mro__ c)) as [HT|HT].
      - destruct (Hin T HT) as (s & Hs & ->). rewrite (tracked_lookup _ _ _ Hs). set_solver.
      - unfold tracked. by rewrite (Hout T HT). }
    intros T s x Hs Hx. destruct (decide (x = o)) as [->|Hne].
    + exists {| __class__ := c; __dict__ := ∅ |}.
      split; [by rewrite Hheap, lookup_insert_eq |]. split; [done |]. simpl. split.
      * destruct (decide (T ∈ __mro__ c)) as [HT|HT]; [done |].
        rewrite (Hout T HT) in Hs. destruct (Hwf _ _ _ Hs Hx) as (? & ? & _). congruence.
      * intros c' Hc'. destruct (Hin c' Hc') as (s' & Hs' & ->).
        rewrite (tracked_lookup _ _ _ Hs'). set_solver.
    + assert (x ∈ tracked st T) as Hx0.
      { destruct (decide (T ∈ __mro__ c)) as [HT|HT].
        - destruct (Hin T HT) as (s' & Hs' & ->). rewrite Hs in Hs'. injection Hs' as ->.
          set_solver.
        - rewrite (Hout T HT) in Hs. by rewrite (tracked_lookup _ _ _ Hs). }
      apply elem_of_tracked in Hx0 as (s0 & Hs0 & Hx0).
      destruct (Hwf _ _ _ Hs0 Hx0) as (ob & Hob & Hnd' & HT & Hall).
      exists ob. split; [by apply Hold |]. repeat split; try done.
      intros c' Hc'. by apply Hsub, Hall.
  - specialize (Hoff eq_refl). intros T s x Hs Hx. rewrite Hoff in Hs.
    destruct (Hwf _ _ _ Hs Hx) as (ob & Hob & Hnd' & HT & Hall).
    exists ob. split; [by apply Hold |]. repeat split; try done.
    intros c' Hc'. unfold tracked. rewrite Hoff. by apply Hall.
Qed.

Lemma finalize_preserves_wf o st : registry_wf st → registry_wf (finalize o st).
Proof.
  intros Hwf T s x Hs Hx. unfold finalize in *; simpl in *.
  rewrite lookup_fmap in Hs.
  destruct (__instancesets__ st !! T) as [s0|] eqn:Hs0; [| done].
  injection Hs as <-. apply elem_of_difference in Hx as [Hx Hne].
  destruct (Hwf _ _ _ Hs0 Hx) as (ob & Hob & Hnd & HT & Hall).
  exists ob. split; [rewrite lookup_delete_ne; [done | set_solver] |].
  repeat split; try done. intros c Hc. specialize (Hall c Hc).
  unfold tracked in *; simpl. rewrite lookup_fmap.
  destruct (__instancesets__ st !! c); simpl in *; set_solver.
Qed.

(** ** The statements at concrete inputs *)

Lemma boundedb_sound d h : ∀ o, boundedb d h o = true → bounded d h o.
Proof.
  induction d as [|d IH]; intros o; simpl; [done |].
  destruct (h !! o) as [ob|]; [| done].
  intros [Hd Hl]%andb_true_iff.
  destruct (__dict__ ob !! "_contained_objects") as [[]|] eqn:Hc; try done.
  exists ob, l. repeat split; try done.
  apply Forall_forall. intros c Hc'. apply IH.
  rewrite forallb_forall in Hl. by apply Hl, list_elem_of_In.
Qed.


Lemma bounded_all_initialised d h p :
  bounded d h p → ∀ x, reach h p x → initialised h x.
Proof. intros Hb x Hx. eapply bounded_initialised, bounded_reach; done. Qed.

Lemma active_cascade_witness :
  (∃ st', BrianObject.assign_active 2 0 (VBool false) Examples.compound = (Ok tt, st') ∧
          active_of (heap st') 0 = Some (VBool false) ∧
          active_of (heap st') 1 = Some (VBool false)) ∧
  (∃ st', BrianObject.assign_active 2 1 (VBool false) Examples.compound = (Ok tt, st') ∧
          active_of (heap st') 1 = Some (VBool false) ∧
          heap st' !! 0 = heap Examples.compound !! 0).
Proof.
  set (h := heap Examples.compound).
  assert (bounded 2 h 0) as Hb0 by (by apply boundedb_sound; vm_compute).
  assert (bounded 2 h 1) as Hb1 by (by apply boundedb_sound; vm_compute).
  assert (contains h 0 1) as H01.
  { eexists _, [1]. split; [reflexivity |]. split; [reflexivity |]. apply list_elem_of_here. }
  split.
  - destruct (active_cascade Examples.compound 0 false) as [Hsound Htotal].
    { intros x Hx. by apply initialised_is_BrianObject, (bounded_all_initialised _ _ _ Hb0). }
    destruct (Htotal (bounded_all_initialised _ _ _ Hb0) (bounded_acyclic _ _ _ Hb0) 2)
      as (st' & Hrun); [vm_compute; lia |].
    exists st'. split; [done |]. destruct (Hsound 2 st' Hrun) as (_ & Hact & _).
    split; apply Hact; [apply rtc_refl | by apply rtc_once].
  - destruct (active_cascade Examples.compound 1 false) as [Hsound Htotal].
    { intros x Hx. by apply initialised_is_BrianObject, (bounded_all_initialised _ _ _ Hb1). }
    destruct (Htotal (bounded_all_initialised _ _ _ Hb1) (bounded_acyclic _ _ _ Hb1) 2)
      as (st' & Hrun); [vm_compute; lia |].
    exists st'. split; [done |]. destruct (Hsound 2 st' Hrun) as (_ & Hact & _ & Hparent).
    split; [apply Hact, rtc_refl | by apply Hparent].
Defined.

Lemma set_active_terminates_witness :
  (∃ st', BrianObject.assign_active 2 0 (VInt 0) Examples.compound = (Ok tt, st')) ∧
  BrianObject.assign_active 5 0 (VBool false) Examples.cyclic ≠ (Ok tt, Examples.cyclic).
Proof.
  split.
  - assert (bounded 2 (heap Examples.compound) 0) as Hb0 by (by apply boundedb_sound; vm_compute).
    destruct (set_active_terminates Examples.compound 0 (VInt 0)
                (bounded_all_initialised _ _ _ Hb0)) as [Hterm _].
    apply (Hterm (bounded_acyclic _ _ _ Hb0) 2). vm_compute. lia.
  - set (h := heap Examples.cyclic).
    assert (h !! 0 = Some {| __class__ := BrianObject.cls;
                             __dict__ := <["_contained_objects" := VList [0]]>
                               (initial_dict BrianObject.default_when BrianObject.default_order
                                  (VClock defaultclock)) |}) as Hob by reflexivity.
    assert (contains h 0 0) as H00.
    { eexists _, [0]. split; [exact Hob |]. split; [reflexivity | apply list_elem_of_here]. }
    assert (∀ a x, reach h a x → a = 0 → x = 0) as Honly.
    { intros a x Hx. induction Hx as [|a y z Hay _ IH]; [done |].
      intros ->. apply IH.
      apply (contains_inv _ _ _ _ [0] Hob) in Hay; [| reflexivity].
      by apply list_elem_of_singleton in Hay. }
    destruct (set_active_terminates Examples.cyclic 0 (VBool false)) as [_ Hloop].
    + intros x Hx. rewrite (Honly 0 x Hx eq_refl). eexists _, [0].
      split; [exact Hob |]. split; reflexivity.
    + apply Hloop. intros Hacyc. apply (Hacyc 0 (rtc_refl _ _)). by apply tc_once.
Defined.

Lemma new_registers_under_mro_witness :
  ∃ x st', InstanceTracker.__new__ Examples.NeuronGroup Examples.empty = (Ok x, st') ∧
    x ∈ tracked st' "object" ∧
    (∃ l, get_instances BrianObject.cls st' = (Ok l, st') ∧ VRef x ∈ l) ∧
    get_instances Examples.object st' = (Raise TypeError, st').
Proof.
  destruct (new_registers_under_mro Examples.NeuronGroup Examples.empty eq_refl)
    as (x & st' & Hnew & Htr & Hget & Hraise).
  exists x, st'. split; [done |]. split; [apply Htr; set_solver |]. split.
  - apply Hget; set_solver.
  - apply Hraise. set_solver.
Defined.

Lemma construct_contract_witness :
  (BrianObject.construct BrianObject.cls (VInt 42) BrianObject.default_order
     BrianObject.default_clock Examples.empty).1 = Raise TypeError ∧
  (BrianObject.construct BrianObject.cls BrianObject.default_when BrianObject.default_order
     (VStr "not-a-clock") Examples.empty).1 = Raise TypeError ∧
  ∃ o st', BrianObject.construct BrianObject.cls BrianObject.default_when
             BrianObject.default_order BrianObject.default_clock Examples.empty = (Ok o, st') ∧
           BrianObject.clock o st' = (Ok (VClock defaultclock), st') ∧
           BrianObject.active o st' = (Ok (VBool true), st').
Proof.
  split; [| split].
  - destruct (construct_contract BrianObject.cls Examples.empty (VInt 42)
                BrianObject.default_order BrianObject.default_clock) as (Hwhen & _).
    by apply Hwhen.
  - destruct (construct_contract BrianObject.cls Examples.empty BrianObject.default_when
                BrianObject.default_order (VStr "not-a-clock")) as (_ & Hclock & _).
    by apply Hclock.
  - destruct (construct_contract BrianObject.cls Examples.empty BrianObject.default_when
                BrianObject.default_order BrianObject.default_clock) as (_ & _ & Hok).
    destruct (Hok eq_refl) as (o & st' & Hrun & _ & Hclock & _ & Hactive).
    by exists o, st'.
Defined.

Lemma order_unchecked_witness :
  ∃ o st' ob,
    BrianObject.construct BrianObject.cls BrianObject.default_when (VStr "last")
      BrianObject.default_clock Examples.empty = (Ok o, st') ∧
    heap st' !! o = Some ob ∧ __dict__ ob !! "order" = Some (VStr "last").
Proof.
  apply (order_unchecked BrianObject.cls Examples.empty); [reflexivity | by left].
Defined.

Lemma get_instances_untracked_or_empty_witness :
  get_instances Examples.object Examples.one_group = (Raise TypeError, Examples.one_group) ∧
  get_instances Examples.Untracked Examples.one_group = (Ok [], Examples.one_group).
Proof.
  split.
  - apply (get_instances_untracked_or_empty Examples.object). set_solver.
  - apply (get_instances_untracked_or_empty Examples.Untracked); [set_solver | reflexivity].
Defined.

Lemma snapshot_dereferences_witness :
  ∃ l, get_instances BrianObject.cls Examples.compound = (Ok l, Examples.compound) ∧
       length l = 2 ∧
       ∀ v, v ∈ l → ∃ o, v = VRef o ∧ is_Some (heap Examples.compound !! o).
Proof.
  destruct (snapshot_dereferences BrianObject.cls Examples.compound)
    as (l & Hget & Hlen & _ & _ & Hlive); [set_solver |].
  exists l. split; [done |]. split; [by rewrite Hlen |].
  by apply Hlive, registry_wfb_sound.
Defined.


